(** * Status propagation macros of reverb/cc/platform/default/status_macros.h

    The header defines five preprocessor macros:
    [REVERB_PREDICT_FALSE], [REVERB_PREDICT_TRUE], [REVERB_RETURN_IF_ERROR],
    [REVERB_ASSIGN_OR_RETURN_IMPL] and [REVERB_CHECK_OK].  Each one is embedded
    below as a statement of a small state-and-exit monad: a statement either
    lets control reach the next statement, leaves the enclosing function with
    a return value, or aborts the process. *)

From Stdlib Require Import String List ZArith Lia Bool.
From ExtLib Require Import Structures.Monad.
Import ListNotations.
Import MonadNotation.
Local Open Scope string_scope.
Local Open Scope monad_scope.

Set Implicit Arguments.

(** ** The result types the header consumes (absl, external) *)

Module absl.

(** The non-OK members of [absl::StatusCode], in the order of their values
    1..16. *)
Inductive ErrorCode : Type :=
| kCancelled | kUnknown | kInvalidArgument | kDeadlineExceeded
| kNotFound | kAlreadyExists | kPermissionDenied | kResourceExhausted
| kFailedPrecondition | kAborted | kOutOfRange | kUnimplemented
| kInternal | kUnavailable | kDataLoss | kUnauthenticated.

Definition ErrorCode_eqb (a b : ErrorCode) : bool :=
  match a, b with
  | kCancelled, kCancelled | kUnknown, kUnknown
  | kInvalidArgument, kInvalidArgument
  | kDeadlineExceeded, kDeadlineExceeded | kNotFound, kNotFound
  | kAlreadyExists, kAlreadyExists | kPermissionDenied, kPermissionDenied
  | kResourceExhausted, kResourceExhausted
  | kFailedPrecondition, kFailedPrecondition | kAborted, kAborted
  | kOutOfRange, kOutOfRange | kUnimplemented, kUnimplemented
  | kInternal, kInternal | kUnavailable, kUnavailable
  | kDataLoss, kDataLoss | kUnauthenticated, kUnauthenticated => true
  | _, _ => false
  end.

(** Modelled from the spec: [absl::Status], the failure descriptor, which
    the header includes from absl/status/status.h and which is not part of
    the sources.  It is "no error", or an error with a classification and a
    message.  (absl drops the message of a status built with the OK code,
    so every OK status is the value of [absl::OkStatus()].) *)
Inductive Status : Type :=
| OkStatus
| Error (c : ErrorCode) (msg : string).

(** [Status::ok()] *)
Definition ok (s : Status) : bool :=
  match s with OkStatus => true | Error _ _ => false end.

(** [Status::message()] *)
Definition message (s : Status) : string :=
  match s with OkStatus => "" | Error _ m => m end.

(** [Status::code()]; [None] stands for [absl::StatusCode::kOk]. *)
Definition code (s : Status) : option ErrorCode :=
  match s with OkStatus => None | Error c _ => Some c end.

(** [operator==] on two statuses. *)
Definition Status_eqb (a b : Status) : bool :=
  match a, b with
  | OkStatus, OkStatus => true
  | Error c m, Error c' m' => ErrorCode_eqb c c' && String.eqb m m'
  | _, _ => false
  end.

(** Modelled from the spec: [absl::StatusOr<T>], the fallible expression
    result: a success payload or a failure descriptor, never both. *)
Inductive StatusOr (T : Type) : Type :=
| HoldsValue (v : T)
| HoldsError (c : ErrorCode) (msg : string).
Arguments HoldsError {T} c msg.

(** [StatusOr<T>::ok()] *)
Definition has_value {T} (so : StatusOr T) : bool :=
  match so with HoldsValue _ => true | HoldsError _ _ => false end.

(** [StatusOr<T>::status()] *)
Definition status {T} (so : StatusOr T) : Status :=
  match so with HoldsValue _ => OkStatus | HoldsError c m => Error c m end.

(** [StatusOr<T>::ValueOrDie()]: the payload, defined only on success;
    [None] is the crash of the accessor on a failure. *)
Definition ValueOrDie {T} (so : StatusOr T) : option T :=
  match so with HoldsValue v => Some v | HoldsError _ _ => None end.

End absl.
Export absl.

(** ** C scalars and the branch-prediction hint (lines 20-37) *)

Module Hint.

(** The operand and result type of [__builtin_expect] is [long]; it is
    taken as the 64-bit two's complement integer of LP64 targets. *)
Definition long_bits : Z := 64.

Definition to_long (z : Z) : Z :=
  (z + 2 ^ (long_bits - 1)) mod 2 ^ long_bits - 2 ^ (long_bits - 1).

(** A C++ [bool] converted to an integer. *)
Definition of_bool (b : bool) : Z := if b then 1 else 0.

(** The test of [if (e)] on a scalar: non-zero is true. *)
Definition truthy (z : Z) : bool := negb (z =? 0)%Z.

(** [!x] on a scalar. *)
Definition lnot (z : Z) : Z := of_bool (z =? 0)%Z.

(** [long __builtin_expect(long exp, long c)] returns [exp]; [c] only
    informs the optimiser. *)
Definition __builtin_expect (exp c : Z) : Z := to_long exp.

(** Which branch of the [#if] at line 31 the compiler takes. *)
Inductive Expansion : Type :=
| WithBuiltinExpect   (* REVERB_HAS_BUILTIN(__builtin_expect) || GCC >= 3 *)
| PlainFallback.      (* #else *)

(** What the preprocessor knows of the compiler at lines 20-31. *)
Record Compiler : Type :=
  mkCompiler
    { defines_has_builtin : bool;      (* #ifdef __has_builtin *)
      has_builtin_expect : bool;       (* __has_builtin(__builtin_expect) *)
      gnuc : option Z }.               (* __GNUC__, when defined *)

(** Lines 20-24: [REVERB_HAS_BUILTIN(__builtin_expect)]. *)
Definition REVERB_HAS_BUILTIN_expect (cc : Compiler) : Z :=
  if defines_has_builtin cc then of_bool (has_builtin_expect cc) else 0.

(** Line 31:
    [#if REVERB_HAS_BUILTIN(__builtin_expect) || (defined(__GNUC__) && __GNUC__ >= 3)] *)
Definition expansion_of (cc : Compiler) : Expansion :=
  if truthy (REVERB_HAS_BUILTIN_expect cc)
     || match gnuc cc with Some v => (3 <=? v)%Z | None => false end
  then WithBuiltinExpect
  else PlainFallback.

(** Lines 32 and 35. *)
Definition REVERB_PREDICT_FALSE (e : Expansion) (x : Z) : Z :=
  match e with
  | WithBuiltinExpect => __builtin_expect x 0
  | PlainFallback => x
  end.

(** Lines 33 and 36. *)
Definition REVERB_PREDICT_TRUE (e : Expansion) (x : Z) : Z :=
  match e with
  | WithBuiltinExpect => __builtin_expect (lnot (lnot x)) 1
  | PlainFallback => x
  end.

End Hint.
Export Hint.

(** ** Statements of an enclosing function *)

Module Exec.

(** What the macros do to the objects they name, in program order. *)
Inductive Event : Type :=
| EvalRexpr        (* the fallible expression was evaluated *)
| CallOk           (* .ok() on the macro's temporary *)
| CallStatus       (* .status() on the macro's temporary *)
| CallValueOrDie   (* std::move(statusor.ValueOrDie()) *)
| EvalLhs          (* the destination expression was evaluated *)
| Assign.          (* the destination was assigned or initialised *)

Definition Event_eq_dec (a b : Event) : {a = b} + {a <> b}.
Proof. decide equality. Defined.

(** The caller's state [St] (variables, heap, log sink) and the trace. *)
Record Machine (St : Type) : Type :=
  mkMachine { mem : St; trace : list Event }.

(** How a statement ends. *)
Inductive Outcome (R A : Type) : Type :=
| Next (a : A)        (* control reaches the following statement *)
| Returned (r : R)    (* [return r;] left the enclosing function *)
| Fatal.              (* the process was aborted *)
Arguments Next {R A} a.
Arguments Returned {R A} r.
Arguments Fatal {R A}.

(** A statement in a function of return type [R]. *)
Definition Stmt (St R A : Type) : Type :=
  Machine St -> Outcome R A * Machine St.

(** An expression of the caller: it yields a value and may change the
    caller's state. *)
Definition Expr (St A : Type) : Type := St -> A * St.

Definition seq {St R A B} (c : Stmt St R A) (k : A -> Stmt St R B)
  : Stmt St R B :=
  fun m =>
    match c m with
    | (Next a, m') => k a m'
    | (Returned r, m') => (Returned r, m')
    | (Fatal, m') => (Fatal, m')
    end.

#[global] Instance Monad_Stmt {St R} : Monad (Stmt St R) :=
  {| ret := fun _ a m => (Next a, m);
     bind := fun _ _ c k => seq c k |}.

(** [return r;] *)
Definition return_ {St R A} (r : R) : Stmt St R A :=
  fun m => (Returned r, m).

(** [abort()] *)
Definition die {St R A} : Stmt St R A :=
  fun m => (Fatal, m).

(** Record one event. *)
Definition tick {St R} (ev : Event) : Stmt St R unit :=
  fun m => (Next tt, mkMachine (mem m) (trace m ++ [ev])).

(** Evaluate an expression of the caller and record that it was. *)
Definition eval {St R A} (ev : Event) (e : Expr St A) : Stmt St R A :=
  fun m =>
    let (a, s') := e (mem m) in
    (Next a, mkMachine s' (trace m ++ [ev])).

(** Change the caller's state and record it. *)
Definition effect {St R} (ev : Event) (f : St -> St) : Stmt St R unit :=
  fun m => (Next tt, mkMachine (f (mem m)) (trace m ++ [ev])).

(** Number of occurrences of an event in a trace. *)
Definition occurrences (ev : Event) (t : list Event) : nat :=
  count_occ Event_eq_dec t ev.

End Exec.
Export Exec.

(** Implicit conversion of a returned expression to the declared return type
    of the enclosing function. *)
Class ImplicitlyConvertible (A R : Type) : Type := implicit : A -> R.

#[global] Instance Status_to_Status : ImplicitlyConvertible Status Status :=
  fun s => s.

(** [StatusOr<T>(const Status&)]: a function that returns [StatusOr<T>] may
    return a status; an OK status, which holds no value, becomes an internal
    error. *)
#[global] Instance Status_to_StatusOr {T} :
  ImplicitlyConvertible Status (StatusOr T) :=
  fun s =>
    match s with
    | Error c m => HoldsError c m
    | OkStatus => HoldsError kInternal
                    "An OK status is not a valid constructor argument to StatusOr<T>"
    end.

(** ** The macros (lines 83-87, 137-142, 145) *)

Section Macros.

Context {St : Type}.                 (* the caller's state *)
Context {R : Type}.                  (* return type of the enclosing function *)
Context `{ImplicitlyConvertible Status R}.
Variable hint : Expansion.           (* the branch of the #if at line 31 *)

(** [_status.ok()] and [statusor.ok()], recorded. *)
Definition call_ok (b : bool) : Stmt St R bool :=
  tick CallOk ;; ret b.

(** Lines 83-87:
<<
  do {
    ::absl::Status _status = (__VA_ARGS__);
    if (REVERB_PREDICT_FALSE(!_status.ok())) return _status;
  } while (0)
>>
    The body of [do { } while (0)] runs once. *)
Definition REVERB_RETURN_IF_ERROR (rexpr : Expr St Status) : Stmt St R unit :=
  _status <- eval EvalRexpr rexpr ;;
  is_ok <- call_ok (ok _status) ;;
  if truthy (REVERB_PREDICT_FALSE hint (of_bool (negb is_ok)))
  then return_ (implicit _status)
  else ret tt.

Section Assign.

Context {T : Type}.                  (* the payload type *)
Context {L : Type}.                  (* what a destination evaluates to *)
Variable store : L -> T -> St -> St. (* assignment or initialisation *)

(** [statusor.status()], recorded. *)
Definition call_status (so : StatusOr T) : Stmt St R Status :=
  tick CallStatus ;; ret (status so).

(** [std::move(statusor.ValueOrDie())], recorded; the accessor aborts on
    a failure. *)
Definition call_ValueOrDie (so : StatusOr T) : Stmt St R T :=
  tick CallValueOrDie ;;
  match ValueOrDie so with
  | Some v => ret v
  | None => die
  end.

(** Lines 137-142:
<<
  auto statusor = (rexpr);
  if (REVERB_PREDICT_FALSE(!statusor.ok())) {
    return statusor.status();
  }
  lhs = std::move(statusor.ValueOrDie())
>>
    The macro parameter [statusor] only names the temporary.  In the
    assignment the right operand is evaluated before the left one
    (C++17). *)
Definition REVERB_ASSIGN_OR_RETURN_IMPL
    (lhs : Expr St L) (rexpr : Expr St (StatusOr T)) : Stmt St R unit :=
  statusor <- eval EvalRexpr rexpr ;;
  is_ok <- call_ok (has_value statusor) ;;
  if truthy (REVERB_PREDICT_FALSE hint (of_bool (negb is_ok)))
  then (s <- call_status statusor ;; return_ (implicit s))
  else (v <- call_ValueOrDie statusor ;;
        l <- eval EvalLhs lhs ;;
        effect Assign (store l v)).

End Assign.

(** Modelled from the spec: [CHECK_EQ(a, b)], the fatal-assertion reporter
    the header uses and does not define: the program goes on when the two
    values are equal and is aborted otherwise. *)
Definition CHECK_EQ (a b : Status) : Stmt St R unit :=
  if Status_eqb a b then ret tt else die.

(** Line 145: [#define REVERB_CHECK_OK(val) CHECK_EQ(::absl::OkStatus(), (val))] *)
Definition REVERB_CHECK_OK (val : Expr St Status) : Stmt St R unit :=
  v <- eval EvalRexpr val ;;
  CHECK_EQ OkStatus v.

End Macros.

(** ** Functions written with the macros *)

Section Functions.

Context {St : Type}.
Variable hint : Expansion.

(** The example of lines 43-47, with any number of steps:
<<
  absl::Status MultiStepFunction() {
    REVERB_RETURN_IF_ERROR(Function(args...));
    REVERB_RETURN_IF_ERROR(foo.Method(args...));
    return absl::OkStatus();
  }
>> *)
Fixpoint MultiStepFunction (steps : list (Expr St Status))
  : Stmt St Status unit :=
  match steps with
  | [] => return_ OkStatus
  | step :: rest =>
      REVERB_RETURN_IF_ERROR hint step ;; MultiStepFunction rest
  end.

(** What a caller of [MultiStepFunction] can expect: the steps run in order
    up to the first one whose status is not OK; that status, the state then
    and the number of steps run are the result. *)
Fixpoint first_failure (steps : list (Expr St Status)) (st : St)
  : Status * St * nat :=
  match steps with
  | [] => (OkStatus, st, O)
  | step :: rest =>
      let (s, st') := step st in
      if ok s
      then let '(r, st'', n) := first_failure rest st' in (r, st'', S n)
      else (s, st', 1%nat)
  end.

End Functions.

Section SeveralExtractions.

Context {St T L : Type}.
Variable hint : Expansion.
Variable store : L -> T -> St -> St.

(** A function that extracts one value after the other, each destination
    with its fallible expression, as lines 105-119 use the macro:
<<
  absl::Status ExtractAll() {
    REVERB_ASSIGN_OR_RETURN_IMPL(statusor1, lhs1, rexpr1);
    REVERB_ASSIGN_OR_RETURN_IMPL(statusor2, lhs2, rexpr2);
    return absl::OkStatus();
  }
>> *)
Fixpoint ExtractAll (bindings : list (Expr St L * Expr St (StatusOr T)))
  : Stmt St Status unit :=
  match bindings with
  | [] => return_ OkStatus
  | (lhs, rexpr) :: rest =>
      REVERB_ASSIGN_OR_RETURN_IMPL hint store lhs rexpr ;; ExtractAll rest
  end.

(** What a caller of [ExtractAll] can expect: payloads are stored in order
    up to the first fallible expression that fails; the status and the state
    then are the result. *)
Fixpoint extracted (bindings : list (Expr St L * Expr St (StatusOr T)))
    (st : St) : Status * St :=
  match bindings with
  | [] => (OkStatus, st)
  | (lhs, rexpr) :: rest =>
      let (statusor, st1) := rexpr st in
      match statusor with
      | HoldsValue v => let (l, st2) := lhs st1 in extracted rest (store l v st2)
      | HoldsError c msg => (Error c msg, st1)
      end
  end.

End SeveralExtractions.

(** The status of a fallible expression, its payload dropped:
    [rexpr.status()]. *)
Definition status_of {St T : Type} (rexpr : Expr St (StatusOr T))
  : Expr St Status :=
  fun st => let (statusor, st') := rexpr st in (status statusor, st').

(** A function body starts with an empty trace. *)
Definition enter {St : Type} (st : St) : Machine St := mkMachine st [].

(** An expression without side effects. *)
Definition constant {St A : Type} (a : A) : Expr St A := fun st => (a, st).

(** ** The operations as the specification words them *)

Module Spec.

(** Modelled from the spec: the Error Builder ([internal::StatusBuilder] in
    the header's comments; no source defines it).  It owns one failure
    descriptor and never wraps a success value. *)
Record StatusBuilder : Type :=
  mkBuilder { builder_code : ErrorCode; builder_message : string }.

(** Modelled from the spec: a builder is created only from a non-success
    descriptor; [None] is the programming error of building from success. *)
Definition StatusBuilder_of (s : Status) : option StatusBuilder :=
  match s with
  | OkStatus => None
  | Error c m => Some (mkBuilder c m)
  end.

(** Modelled from the spec: appending contextual text; message "x" with
    context "while loading x" reads "x; while loading x". *)
Definition appendContext (text : string) (b : StatusBuilder) : StatusBuilder :=
  mkBuilder (builder_code b) (builder_message b ++ "; " ++ text).

(** Modelled from the spec: the conversion of a builder back into a plain
    failure descriptor at the point of consumption. *)
Definition to_Status (b : StatusBuilder) : Status :=
  Error (builder_code b) (builder_message b).

(** Modelled from the spec: what an error expression evaluates to: a value
    of the enclosing function's return type, which is returned, or no value
    (the void, log-and-continue case), after which the function goes on. *)
Inductive ErrorExpressionResult (R : Type) : Type :=
| ReturnThis (r : R)
| ContinuePast.
Arguments ReturnThis {R} r.
Arguments ContinuePast {R}.

(** Modelled from the spec: what the caller wrote for the failure path of a
    value extraction: no error expression, and then possibly an augmentation
    chained after the operation, or an error expression, which may refer to
    the builder and to the caller's state. *)
Inductive OnFailure (St R : Type) : Type :=
| NoErrorExpression (chain : StatusBuilder -> StatusBuilder)
| ErrorExpression
    (expr : StatusBuilder -> Expr St (ErrorExpressionResult R)).
Arguments NoErrorExpression {St R} chain.
Arguments ErrorExpression {St R} expr.

Section Operations.

Context {St R : Type} `{ImplicitlyConvertible Status R}.

(** Modelled from the spec: short-circuit propagation (4.2).  On failure the
    failure is wrapped in an Error Builder, the augmentation [chain] the
    caller wrote after the operation is applied to it, and the converted
    builder is the return value of the enclosing function; on success
    control falls through. *)
Definition short_circuit (chain : StatusBuilder -> StatusBuilder)
    (rexpr : Expr St Status) : Stmt St R unit :=
  s <- eval EvalRexpr rexpr ;;
  match StatusBuilder_of s with
  | Some builder => return_ (implicit (to_Status (chain builder)))
  | None => ret tt
  end.

Context {T L : Type}.
Variable store : L -> T -> St -> St.

(** Modelled from the spec: value-extraction propagation (4.3).  On success
    the payload is assigned to the destination.  On failure the destination
    is left alone and the caller's choice [on_failure] decides: without an
    error expression the failure is returned through an Error Builder, with
    the augmentation the caller chained, as in 4.2; with an error expression,
    it is evaluated with the placeholder bound to an Error Builder over the
    failure, and its result is returned, or, when it yields no value, control
    goes on past the extraction. *)
Definition value_extraction (on_failure : OnFailure St R)
    (lhs : Expr St L) (rexpr : Expr St (StatusOr T)) : Stmt St R unit :=
  so <- eval EvalRexpr rexpr ;;
  match so with
  | HoldsValue v =>
      l <- eval EvalLhs lhs ;;
      effect Assign (store l v)
  | HoldsError c m =>
      match on_failure with
      | NoErrorExpression chain =>
          return_ (implicit (to_Status (chain (mkBuilder c m))))
      | ErrorExpression expr =>
          fun machine =>
            let (result, st') := expr (mkBuilder c m) (mem machine) in
            (match result with
             | ReturnThis r => Returned r
             | ContinuePast => Next tt
             end,
             mkMachine st' (trace machine))
      end
  end.

End Operations.

End Spec.

(** ** Concrete callers *)

Module Scenario.

(** Local variables of a function, by name. *)
Definition Locals : Type := string -> option Z.

Definition no_locals : Locals := fun _ => None.

Definition set_local (x : string) (v : Z) (st : Locals) : Locals :=
  fun y => if String.eqb x y then Some v else st y.

(** The destination [int v]: a new binding; naming it has no effect. *)
Definition declare (x : string) : Expr Locals string := fun st => (x, st).

(** [return v + 1;] in a function returning [absl::StatusOr<int>]. *)
Definition return_successor (x : string) : Stmt Locals (StatusOr Z) unit :=
  fun m =>
    match mem m x with
    | Some v => (Returned (HoldsValue (v + 1)%Z), m)
    | None => (Fatal, m)
    end.

(** Testable property 8:
<<
  absl::StatusOr<int> f() {
    REVERB_ASSIGN_OR_RETURN_IMPL(statusor, int v, rexpr);
    return v + 1;
  }
>> *)
Definition extract_then_increment (hint : Expansion)
    (rexpr : Expr Locals (StatusOr Z)) : Stmt Locals (StatusOr Z) unit :=
  REVERB_ASSIGN_OR_RETURN_IMPL hint set_local (declare "v") rexpr ;;
  return_successor "v".

(** A fallible expression that counts its own evaluations in the caller's
    state and yields the same result every time. *)
Definition counting {A : Type} (a : A) : Expr nat A := fun n => (a, S n).

(** The error expression of lines 130-131,
    [_ << "while processing query"], in a function that returns a status. *)
Definition while_processing_query {St : Type}
  : Spec.StatusBuilder -> Expr St (Spec.ErrorExpressionResult Status) :=
  fun builder st =>
    (Spec.ReturnThis
       (Spec.to_Status (Spec.appendContext "while processing query" builder)),
     st).

End Scenario.

(** * Properties *)

(** ** Equality of statuses *)

Lemma ErrorCode_eqb_eq (a b : ErrorCode) : ErrorCode_eqb a b = true <-> a = b.
Proof.
  split.
  - destruct a, b; simpl; intro E; try reflexivity; discriminate E.
  - intros ->. destruct b; reflexivity.
Qed.

Lemma Status_eqb_eq (a b : Status) : Status_eqb a b = true <-> a = b.
Proof.
  destruct a as [|c m], b as [|c' m']; simpl; split; intro E;
    try reflexivity; try discriminate E.
  - apply andb_true_iff in E as [Ec Em].
    apply ErrorCode_eqb_eq in Ec. apply String.eqb_eq in Em. now subst.
  - injection E as -> ->. apply andb_true_iff. split.
    + now apply ErrorCode_eqb_eq.
    + apply String.eqb_refl.
Qed.

(** A status is OK exactly when it is the value of [absl::OkStatus()]. *)
Lemma ok_iff_OkStatus (s : Status) : ok s = true <-> s = OkStatus.
Proof. destruct s; simpl; split; intro E; congruence. Qed.

Lemma eqb_OkStatus (s : Status) : Status_eqb OkStatus s = ok s.
Proof. destruct s; reflexivity. Qed.

(** ** The hint on a boolean condition *)

Lemma to_long_of_bool (b : bool) : to_long (of_bool b) = of_bool b.
Proof. destruct b; reflexivity. Qed.

Lemma truthy_of_bool (b : bool) : truthy (of_bool b) = b.
Proof. destruct b; reflexivity. Qed.

Lemma lnot_lnot_of_bool (b : bool) : lnot (lnot (of_bool b)) = of_bool b.
Proof. destruct b; reflexivity. Qed.

Lemma PREDICT_FALSE_of_bool (e : Expansion) (b : bool) :
  REVERB_PREDICT_FALSE e (of_bool b) = of_bool b.
Proof. destruct e; simpl; [apply to_long_of_bool | reflexivity]. Qed.

Lemma PREDICT_TRUE_of_bool (e : Expansion) (b : bool) :
  REVERB_PREDICT_TRUE e (of_bool b) = of_bool b.
Proof.
  destruct e; simpl; [| reflexivity].
  unfold __builtin_expect. now rewrite lnot_lnot_of_bool, to_long_of_bool.
Qed.

(** The test the two propagation macros branch on. *)
Lemma failure_test (e : Expansion) (is_ok : bool) :
  truthy (REVERB_PREDICT_FALSE e (of_bool (negb is_ok))) = negb is_ok.
Proof. now rewrite PREDICT_FALSE_of_bool, truthy_of_bool. Qed.

(** ** Traces *)

Lemma occurrences_app (ev : Event) (t u : list Event) :
  occurrences ev (t ++ u) = (occurrences ev t + occurrences ev u)%nat.
Proof. apply count_occ_app. Qed.

(** ** One run of each macro *)

Section Runs.

Context {St R : Type} `{ImplicitlyConvertible Status R}.
Variable hint : Expansion.

Lemma RETURN_IF_ERROR_run (rexpr : Expr St Status) (m : Machine St) s st' :
  rexpr (mem m) = (s, st') ->
  REVERB_RETURN_IF_ERROR hint rexpr m =
    (if ok s then Next tt else Returned (implicit s),
     mkMachine st' (trace m ++ [EvalRexpr; CallOk])).
Proof.
  intros E. unfold REVERB_RETURN_IF_ERROR, call_ok.
  cbn [bind ret Monad_Stmt]. unfold seq, eval, tick.
  rewrite E. cbn [mem trace]. rewrite failure_test, <- app_assoc.
  destruct (ok s); reflexivity.
Qed.

Context {T L : Type}.
Variable store : L -> T -> St -> St.

Lemma ASSIGN_OR_RETURN_success
    (lhs : Expr St L) (rexpr : Expr St (StatusOr T)) (m : Machine St)
    v st1 l st2 :
  rexpr (mem m) = (HoldsValue v, st1) ->
  lhs st1 = (l, st2) ->
  REVERB_ASSIGN_OR_RETURN_IMPL hint store lhs rexpr m =
    (Next tt,
     mkMachine (store l v st2)
       (trace m ++ [EvalRexpr; CallOk; CallValueOrDie; EvalLhs; Assign])).
Proof.
  intros E El. unfold REVERB_ASSIGN_OR_RETURN_IMPL, call_ok, call_ValueOrDie.
  cbn [bind ret Monad_Stmt]. unfold seq, eval, tick, effect.
  rewrite E. cbn [mem trace]. rewrite failure_test.
  cbn. rewrite El. cbn.
  repeat rewrite <- app_assoc. reflexivity.
Qed.

Lemma ASSIGN_OR_RETURN_failure
    (lhs : Expr St L) (rexpr : Expr St (StatusOr T)) (m : Machine St)
    c msg st1 :
  rexpr (mem m) = (HoldsError c msg, st1) ->
  REVERB_ASSIGN_OR_RETURN_IMPL hint store lhs rexpr m =
    (Returned (implicit (Error c msg)),
     mkMachine st1 (trace m ++ [EvalRexpr; CallOk; CallStatus])).
Proof.
  intros E. unfold REVERB_ASSIGN_OR_RETURN_IMPL, call_ok, call_status.
  cbn [bind ret Monad_Stmt]. unfold seq, eval, tick.
  rewrite E. cbn [mem trace]. rewrite failure_test.
  cbn. repeat rewrite <- app_assoc. reflexivity.
Qed.

End Runs.

(** ** Short-circuit propagation: REVERB_RETURN_IF_ERROR *)

Section ShortCircuit.

Context {St R : Type} `{ImplicitlyConvertible Status R}.
Variable hint : Expansion.

(** C4: REVERB_RETURN_IF_ERROR evaluates its fallible expression exactly
    once.  When the expression yields a success, control reaches the next
    statement and the caller's state is the one the expression left: the
    macro adds no effect of its own and builds nothing.  When it yields a
    failure, the enclosing function returns that failure. *)
Theorem C4_return_if_error_evaluates_once
    (rexpr : Expr St Status) (m : Machine St) (s : Status) (st' : St) :
  rexpr (mem m) = (s, st') ->
  occurrences EvalRexpr (trace (snd (REVERB_RETURN_IF_ERROR hint rexpr m)))
    = S (occurrences EvalRexpr (trace m))
  /\ mem (snd (REVERB_RETURN_IF_ERROR hint rexpr m)) = st'
  /\ (ok s = true ->
      REVERB_RETURN_IF_ERROR hint rexpr m
        = (Next tt, mkMachine st' (trace m ++ [EvalRexpr; CallOk])))
  /\ (ok s = false ->
      fst (REVERB_RETURN_IF_ERROR hint rexpr m) = Returned (implicit s)).
Proof.
  intros E. rewrite (RETURN_IF_ERROR_run hint rexpr m E). cbn [fst snd mem trace].
  repeat split.
  - rewrite occurrences_app. cbn. lia.
  - intros ->. reflexivity.
  - intros ->. reflexivity.
Qed.

End ShortCircuit.

(** The two evaluations of a repeated macro are two evaluations: each use
    of the macro runs the expression once more. *)
Lemma RETURN_IF_ERROR_counts (hint : Expansion) (n : nat) :
  mem (snd (REVERB_RETURN_IF_ERROR (R := Status) hint
              (Scenario.counting OkStatus) (enter n))) = S n.
Proof.
  now rewrite (RETURN_IF_ERROR_run hint (Scenario.counting OkStatus)
                 (enter n) eq_refl).
Qed.

Lemma C4_witness :
  Scenario.counting (Error kNotFound "x") (mem (enter 7%nat))
    = (Error kNotFound "x", 8%nat)
  /\ mem (snd (REVERB_RETURN_IF_ERROR (R := Status) WithBuiltinExpect
                 (Scenario.counting (Error kNotFound "x")) (enter 7%nat)))
     = 8%nat
  /\ fst (REVERB_RETURN_IF_ERROR (R := Status) WithBuiltinExpect
            (Scenario.counting (Error kNotFound "x")) (enter 7%nat))
     = Returned (Error kNotFound "x").
Proof.
  pose proof (@C4_return_if_error_evaluates_once nat Status _ WithBuiltinExpect
                (Scenario.counting (Error kNotFound "x")) (enter 7%nat)
                (Error kNotFound "x") 8%nat eq_refl) as [_ [Hmem [_ Hfail]]].
  split; [reflexivity |].
  split; [exact Hmem | exact (Hfail eq_refl)].
Defined.

(** The spec's short-circuit operation on a failure: the chained
    augmentation is applied to a builder over the failure. *)
Lemma short_circuit_failure {St R : Type} `{ImplicitlyConvertible Status R}
    (chain : Spec.StatusBuilder -> Spec.StatusBuilder)
    (rexpr : Expr St Status) (m : Machine St) c msg st' :
  rexpr (mem m) = (Error c msg, st') ->
  Spec.short_circuit chain rexpr m =
    (Returned (implicit (Spec.to_Status (chain (Spec.mkBuilder c msg)))),
     mkMachine st' (trace m ++ [EvalRexpr])).
Proof.
  intros E. unfold Spec.short_circuit. cbn [bind ret Monad_Stmt].
  unfold seq, eval. rewrite E. reflexivity.
Qed.


(** C9: on a failure both macros return the very status the fallible
    expression produced: same classification, same message, no builder in
    between, and the caller's state (the log sink included) is the one the
    expression left. *)
Theorem C9_failure_status_returned_as_is
    {St : Type} (hint : Expansion) (m : Machine St) :
  (forall (rexpr : Expr St Status) s st',
      rexpr (mem m) = (s, st') ->
      ok s = false ->
      REVERB_RETURN_IF_ERROR (R := Status) hint rexpr m
      = (Returned s, mkMachine st' (trace m ++ [EvalRexpr; CallOk])))
  /\ (forall (T L : Type) (store : L -> T -> St -> St) (lhs : Expr St L)
             (rexpr : Expr St (StatusOr T)) statusor st',
         rexpr (mem m) = (statusor, st') ->
         has_value statusor = false ->
         REVERB_ASSIGN_OR_RETURN_IMPL (R := Status) hint store lhs rexpr m
         = (Returned (status statusor),
            mkMachine st' (trace m ++ [EvalRexpr; CallOk; CallStatus]))).
Proof.
  split.
  - intros rexpr s st' E Hs.
    now rewrite (RETURN_IF_ERROR_run hint rexpr m E), Hs.
  - intros T L store lhs rexpr [v|c msg] st' E Hs; [discriminate Hs |].
    now rewrite (ASSIGN_OR_RETURN_failure hint store lhs rexpr m E).
Qed.

Lemma C9_witness :
  REVERB_RETURN_IF_ERROR (R := Status) PlainFallback
    (constant (Error kUnavailable "try again")) (enter tt)
  = (Returned (Error kUnavailable "try again"),
     mkMachine tt [EvalRexpr; CallOk])
  /\ REVERB_ASSIGN_OR_RETURN_IMPL (R := Status) PlainFallback
       Scenario.set_local (Scenario.declare "v")
       (constant (HoldsError (T := Z) kUnavailable "try again"))
       (enter Scenario.no_locals)
     = (Returned (Error kUnavailable "try again"),
        mkMachine Scenario.no_locals [EvalRexpr; CallOk; CallStatus]).
Proof.
  split.
  - exact (proj1 (C9_failure_status_returned_as_is PlainFallback (enter tt))
             (constant (Error kUnavailable "try again")) _ _ eq_refl eq_refl).
  - exact (proj2 (C9_failure_status_returned_as_is PlainFallback
                    (enter Scenario.no_locals))
             Z string Scenario.set_local (Scenario.declare "v")
             (constant (HoldsError kUnavailable "try again")) _ _
             eq_refl eq_refl).
Defined.

(** ** Value-extraction propagation: REVERB_ASSIGN_OR_RETURN_IMPL *)

Section ValueExtraction.

Context {St R : Type} `{ImplicitlyConvertible Status R}.
Context {T L : Type}.
Variable hint : Expansion.
Variable store : L -> T -> St -> St.

(** C3: on a failure result the destination is neither evaluated nor
    written: the trace gains no [EvalLhs] and no [Assign], the caller's
    state is the one the fallible expression left, the run is the same
    whatever the destination and its assignment are, and the enclosing
    function returns the failure. *)
Theorem C3_failure_leaves_destination_alone
    (lhs : Expr St L) (rexpr : Expr St (StatusOr T)) (m : Machine St)
    (c : ErrorCode) (msg : string) (st1 : St) :
  rexpr (mem m) = (HoldsError c msg, st1) ->
  fst (REVERB_ASSIGN_OR_RETURN_IMPL hint store lhs rexpr m)
    = Returned (implicit (Error c msg))
  /\ mem (snd (REVERB_ASSIGN_OR_RETURN_IMPL hint store lhs rexpr m)) = st1
  /\ occurrences EvalLhs
       (trace (snd (REVERB_ASSIGN_OR_RETURN_IMPL hint store lhs rexpr m)))
     = occurrences EvalLhs (trace m)
  /\ occurrences Assign
       (trace (snd (REVERB_ASSIGN_OR_RETURN_IMPL hint store lhs rexpr m)))
     = occurrences Assign (trace m)
  /\ (forall (L' : Type) (store' : L' -> T -> St -> St) (lhs' : Expr St L'),
         REVERB_ASSIGN_OR_RETURN_IMPL hint store' lhs' rexpr m
         = REVERB_ASSIGN_OR_RETURN_IMPL hint store lhs rexpr m).
Proof.
  intros E. rewrite (ASSIGN_OR_RETURN_failure hint store lhs rexpr m E).
  cbn [fst snd mem trace]. repeat split.
  - rewrite occurrences_app. cbn. lia.
  - rewrite occurrences_app. cbn. lia.
  - intros L' store' lhs'.
    apply (ASSIGN_OR_RETURN_failure hint store' lhs' rexpr m E).
Qed.

(** C6: when the result holds a value, the payload is taken out of it once,
    by the one call of [ValueOrDie] of the run, and it is that payload which
    the destination receives; when the result holds a failure, the macro
    returns the failure first: the accessor is not called, nothing is
    assigned, and the macro never dies in [ValueOrDie]. *)
Theorem C6_payload_moved_once_on_success_only
    (lhs : Expr St L) (rexpr : Expr St (StatusOr T)) (m : Machine St)
    (statusor : StatusOr T) (st1 : St) :
  rexpr (mem m) = (statusor, st1) ->
  occurrences CallValueOrDie
    (trace (snd (REVERB_ASSIGN_OR_RETURN_IMPL hint store lhs rexpr m)))
    = (occurrences CallValueOrDie (trace m)
       + if has_value statusor then 1 else 0)%nat
  /\ fst (REVERB_ASSIGN_OR_RETURN_IMPL hint store lhs rexpr m) <> Fatal
  /\ (has_value statusor = false ->
      fst (REVERB_ASSIGN_OR_RETURN_IMPL hint store lhs rexpr m)
      = Returned (implicit (status statusor)))
  /\ (forall v : T,
         ValueOrDie statusor = Some v ->
         REVERB_ASSIGN_OR_RETURN_IMPL hint store lhs rexpr m
         = (Next tt,
            mkMachine (store (fst (lhs st1)) v (snd (lhs st1)))
              (trace m
               ++ [EvalRexpr; CallOk; CallValueOrDie; EvalLhs; Assign])))
  /\ (ValueOrDie statusor = None ->
      REVERB_ASSIGN_OR_RETURN_IMPL hint store lhs rexpr m
      = (Returned (implicit (status statusor)),
         mkMachine st1 (trace m ++ [EvalRexpr; CallOk; CallStatus]))).
Proof.
  intros E. destruct statusor as [v|c msg].
  - destruct (lhs st1) as [l st2] eqn:El.
    rewrite (ASSIGN_OR_RETURN_success hint store lhs rexpr m E El).
    cbn [fst snd mem trace has_value ValueOrDie]. repeat split.
    + rewrite occurrences_app. reflexivity.
    + discriminate.
    + discriminate.
    + intros v' Hv. now injection Hv as <-.
    + discriminate.
  - rewrite (ASSIGN_OR_RETURN_failure hint store lhs rexpr m E).
    cbn [fst snd mem trace has_value ValueOrDie status]. repeat split.
    + rewrite occurrences_app. cbn. lia.
    + discriminate.
    + discriminate.
Qed.

End ValueExtraction.

Lemma C3_witness :
  fst (REVERB_ASSIGN_OR_RETURN_IMPL (R := StatusOr Z) WithBuiltinExpect
         Scenario.set_local (Scenario.declare "v")
         (constant (HoldsError (T := Z) kNotFound "x"))
         (enter (Scenario.set_local "v" 7 Scenario.no_locals)))
    = Returned (HoldsError kNotFound "x")
  /\ mem (snd (REVERB_ASSIGN_OR_RETURN_IMPL (R := StatusOr Z) WithBuiltinExpect
                 Scenario.set_local (Scenario.declare "v")
                 (constant (HoldsError (T := Z) kNotFound "x"))
                 (enter (Scenario.set_local "v" 7 Scenario.no_locals)))) "v"
     = Some 7%Z.
Proof.
  pose proof (@C3_failure_leaves_destination_alone _ (StatusOr Z) _ Z string
                WithBuiltinExpect Scenario.set_local (Scenario.declare "v")
                (constant (HoldsError kNotFound "x"))
                (enter (Scenario.set_local "v" 7 Scenario.no_locals))
                kNotFound "x" _ eq_refl) as [Hret [Hmem _]].
  split; [exact Hret |]. rewrite Hmem. reflexivity.
Defined.

Lemma C6_witness :
  REVERB_ASSIGN_OR_RETURN_IMPL (R := Status) PlainFallback
    Scenario.set_local (Scenario.declare "v")
    (constant (HoldsValue 42%Z)) (enter Scenario.no_locals)
  = (Next tt,
     mkMachine (Scenario.set_local "v" 42 Scenario.no_locals)
       [EvalRexpr; CallOk; CallValueOrDie; EvalLhs; Assign])
  /\ REVERB_ASSIGN_OR_RETURN_IMPL (R := Status) PlainFallback
       Scenario.set_local (Scenario.declare "v")
       (constant (HoldsError (T := Z) kDataLoss "gone"))
       (enter Scenario.no_locals)
     = (Returned (Error kDataLoss "gone"),
        mkMachine Scenario.no_locals [EvalRexpr; CallOk; CallStatus]).
Proof.
  split.
  - exact (proj1 (proj2 (proj2 (proj2
             (@C6_payload_moved_once_on_success_only _ Status _ Z string
                PlainFallback Scenario.set_local (Scenario.declare "v")
                (constant (HoldsValue 42%Z)) (enter Scenario.no_locals)
                _ _ eq_refl)))) 42%Z eq_refl).
  - exact (proj2 (proj2 (proj2 (proj2
             (@C6_payload_moved_once_on_success_only _ Status _ Z string
                PlainFallback Scenario.set_local (Scenario.declare "v")
                (constant (HoldsError kDataLoss "gone"))
                (enter Scenario.no_locals) _ _ eq_refl)))) eq_refl).
Defined.

(** The function of testable property 8 on any successful payload. *)
Lemma extract_then_increment_success
    (hint : Expansion) (payload : Z) (locals : Scenario.Locals) :
  Scenario.extract_then_increment hint (constant (HoldsValue payload))
    (enter locals)
  = (Returned (HoldsValue (payload + 1)%Z),
     mkMachine (Scenario.set_local "v" payload locals)
       [EvalRexpr; CallOk; CallValueOrDie; EvalLhs; Assign]).
Proof.
  unfold Scenario.extract_then_increment. cbn [bind Monad_Stmt]. unfold seq.
  rewrite (ASSIGN_OR_RETURN_success hint Scenario.set_local
             (Scenario.declare "v") (constant (HoldsValue payload))
             (enter locals) eq_refl eq_refl).
  reflexivity.
Qed.

(** C5: on a success result the payload is assigned into the destination
    and control reaches the next statement; extracting the payload 42 into a
    new binding [v] and then returning [v + 1] makes the function return
    43. *)
Theorem C5_success_assigns_payload :
  (forall (St R T L : Type) (conv : ImplicitlyConvertible Status R)
          (hint : Expansion) (store : L -> T -> St -> St)
          (lhs : Expr St L) (rexpr : Expr St (StatusOr T)) (m : Machine St)
          (v : T) (st1 : St) (l : L) (st2 : St),
      rexpr (mem m) = (HoldsValue v, st1) ->
      lhs st1 = (l, st2) ->
      fst (REVERB_ASSIGN_OR_RETURN_IMPL (R := R) hint store lhs rexpr m)
        = Next tt
      /\ mem (snd (REVERB_ASSIGN_OR_RETURN_IMPL (R := R) hint store lhs rexpr m))
         = store l v st2)
  /\ (forall (hint : Expansion) (payload : Z) (locals : Scenario.Locals),
         mem (snd (REVERB_ASSIGN_OR_RETURN_IMPL (R := StatusOr Z) hint
                     Scenario.set_local (Scenario.declare "v")
                     (constant (HoldsValue payload)) (enter locals))) "v"
         = Some payload)
  /\ (forall (hint : Expansion),
         fst (Scenario.extract_then_increment hint
                (constant (HoldsValue 42%Z)) (enter Scenario.no_locals))
         = Returned (HoldsValue 43%Z)).
Proof.
  split; [| split].
  - intros St R T L conv hint store lhs rexpr m v st1 l st2 E El.
    now rewrite (ASSIGN_OR_RETURN_success hint store lhs rexpr m E El).
  - intros hint payload locals.
    rewrite (ASSIGN_OR_RETURN_success hint Scenario.set_local
               (Scenario.declare "v") (constant (HoldsValue payload))
               (enter locals) eq_refl eq_refl).
    reflexivity.
  - intros hint. now rewrite extract_then_increment_success.
Qed.

Lemma C5_witness :
  REVERB_ASSIGN_OR_RETURN_IMPL (R := StatusOr Z) WithBuiltinExpect
    Scenario.set_local (Scenario.declare "v")
    (fun st => (HoldsValue 42%Z, Scenario.set_local "calls" 1 st))
    (enter Scenario.no_locals)
  = (Next tt,
     mkMachine (Scenario.set_local "v" 42
                  (Scenario.set_local "calls" 1 Scenario.no_locals))
       [EvalRexpr; CallOk; CallValueOrDie; EvalLhs; Assign])
  /\ mem (snd (REVERB_ASSIGN_OR_RETURN_IMPL (R := StatusOr Z) WithBuiltinExpect
                 Scenario.set_local (Scenario.declare "v")
                 (fun st => (HoldsValue 42%Z, Scenario.set_local "calls" 1 st))
                 (enter Scenario.no_locals)))
     = Scenario.set_local "v" 42
         (Scenario.set_local "calls" 1 Scenario.no_locals).
Proof.
  split; [reflexivity |].
  exact (proj2 (proj1 C5_success_assigns_payload
                  Scenario.Locals (StatusOr Z) Z string _ WithBuiltinExpect
                  Scenario.set_local (Scenario.declare "v")
                  (fun st => (HoldsValue 42%Z, Scenario.set_local "calls" 1 st))
                  (enter Scenario.no_locals) 42%Z _ "v" _ eq_refl eq_refl)).
Defined.

(** The spec's value extraction on a failure, for each way the caller can
    have written the failure path. *)
Lemma value_extraction_failure
    {St R T L : Type} `{ImplicitlyConvertible Status R}
    (store : L -> T -> St -> St) (on_failure : Spec.OnFailure St R)
    (lhs : Expr St L) (rexpr : Expr St (StatusOr T)) (m : Machine St)
    c msg st1 :
  rexpr (mem m) = (HoldsError c msg, st1) ->
  Spec.value_extraction store on_failure lhs rexpr m
  = match on_failure with
    | Spec.NoErrorExpression chain =>
        (Returned (implicit (Spec.to_Status (chain (Spec.mkBuilder c msg)))),
         mkMachine st1 (trace m ++ [EvalRexpr]))
    | Spec.ErrorExpression expr =>
        (match fst (expr (Spec.mkBuilder c msg) st1) with
         | Spec.ReturnThis r => Returned r
         | Spec.ContinuePast => Next tt
         end,
         mkMachine (snd (expr (Spec.mkBuilder c msg) st1))
           (trace m ++ [EvalRexpr]))
    end.
Proof.
  intros E. unfold Spec.value_extraction. cbn [bind ret Monad_Stmt].
  unfold seq, eval. rewrite E. destruct on_failure as [chain | expr].
  - reflexivity.
  - cbn [mem trace]. destruct (expr (Spec.mkBuilder c msg) st1) as [[r|] st2];
      reflexivity.
Qed.


(** ** A failure leaves the function at once *)

Section FirstFailure.

Context {St : Type}.
Variable hint : Expansion.

(** [MultiStepFunction] returns what [first_failure] tells, after running
    exactly the steps it counts. *)
Lemma MultiStepFunction_run (steps : list (Expr St Status)) :
  forall (m : Machine St) r st' n,
    first_failure steps (mem m) = (r, st', n) ->
    fst (MultiStepFunction hint steps m) = Returned r
    /\ mem (snd (MultiStepFunction hint steps m)) = st'
    /\ occurrences EvalRexpr (trace (snd (MultiStepFunction hint steps m)))
       = (occurrences EvalRexpr (trace m) + n)%nat.
Proof.
  induction steps as [|step rest IH]; intros m r st' n F.
  - injection F as <- <- <-. cbn. auto.
  - cbn [MultiStepFunction bind Monad_Stmt]. unfold seq.
    cbn [first_failure] in F.
    destruct (step (mem m)) as [s st1] eqn:E.
    rewrite (RETURN_IF_ERROR_run hint step m E).
    destruct (ok s).
    + destruct (first_failure rest st1) as [[r0 st0] n0] eqn:F0.
      injection F as <- <- <-.
      destruct (IH (mkMachine st1 (trace m ++ [EvalRexpr; CallOk]))
                  r0 st0 n0 F0) as (Hr & Hm & Ht).
      repeat split; trivial.
      rewrite Ht. cbn [trace]. rewrite occurrences_app. cbn. lia.
    + injection F as <- <- <-. cbn [fst snd mem trace].
      repeat split. rewrite occurrences_app. cbn. lia.
Qed.

(** The result of [first_failure] is OK only when every step ran. *)
Lemma first_failure_ok_ran_all (steps : list (Expr St Status)) :
  forall st r st' n,
    first_failure steps st = (r, st', n) ->
    ok r = true -> n = length steps.
Proof.
  induction steps as [|step rest IH]; intros st r st' n F Hr.
  - now injection F as <- <- <-.
  - cbn [first_failure] in F.
    destruct (step st) as [s st1].
    destruct (ok s) eqn:Hs.
    + destruct (first_failure rest st1) as [[r0 st0] n0] eqn:F0.
      injection F as <- <- <-. cbn. f_equal. exact (IH _ _ _ _ F0 Hr).
    + injection F as <- <- <-. congruence.
Qed.

(** A step that fails ends the function there: it is the last step run. *)
Lemma first_failure_stops (before after : list (Expr St Status))
    (failing : Expr St Status) :
  forall st r st' n,
    first_failure before st = (r, st', n) ->
    ok r = true ->
    ok (fst (failing st')) = false ->
    first_failure (before ++ failing :: after) st
    = (fst (failing st'), snd (failing st'), S (length before)).
Proof.
  induction before as [|step rest IH]; intros st r st' n F Hr Hf.
  - injection F as <- <- <-. cbn.
    destruct (failing st) as [s st1]. cbn in *. now rewrite Hf.
  - cbn [first_failure app] in *.
    destruct (step st) as [s st1].
    destruct (ok s) eqn:Hs.
    + destruct (first_failure rest st1) as [[r0 st0] n0] eqn:F0.
      injection F as <- <- <-.
      now rewrite (IH _ _ _ _ F0 Hr Hf).
    + injection F as <- <- <-. congruence.
Qed.

End FirstFailure.

(** C7: on a failure result either macro leaves the enclosing function at
    once with that failure: whatever statement follows is not run, the
    fallible expression has been evaluated once and is not retried, and
    nothing is written in place of the missing payload.  A function made of
    REVERB_RETURN_IF_ERROR steps returns the first failure among them and
    returns OK only when every step ran. *)
Theorem C7_failure_is_never_swallowed
    {St R : Type} `{ImplicitlyConvertible Status R} (hint : Expansion) :
  (forall (B : Type) (rexpr : Expr St Status) (next : Stmt St R B)
          (m : Machine St) s st',
      rexpr (mem m) = (s, st') ->
      ok s = false ->
      (REVERB_RETURN_IF_ERROR hint rexpr ;; next) m
      = (Returned (implicit s),
         mkMachine st' (trace m ++ [EvalRexpr; CallOk])))
  /\ (forall (B T L : Type) (store : L -> T -> St -> St) (lhs : Expr St L)
             (rexpr : Expr St (StatusOr T)) (next : Stmt St R B)
             (m : Machine St) c msg st1,
         rexpr (mem m) = (HoldsError c msg, st1) ->
         (REVERB_ASSIGN_OR_RETURN_IMPL hint store lhs rexpr ;; next) m
         = (Returned (implicit (Error c msg)),
            mkMachine st1 (trace m ++ [EvalRexpr; CallOk; CallStatus])))
  /\ (forall (steps : list (Expr St Status)) (st : St) r st' n,
         first_failure steps st = (r, st', n) ->
         fst (MultiStepFunction hint steps (enter st)) = Returned r
         /\ mem (snd (MultiStepFunction hint steps (enter st))) = st'
         /\ occurrences EvalRexpr
              (trace (snd (MultiStepFunction hint steps (enter st)))) = n
         /\ (ok r = true -> n = length steps)).
Proof.
  split; [| split].
  - intros B rexpr next m s st' E Hs.
    cbn [bind Monad_Stmt]. unfold seq.
    now rewrite (RETURN_IF_ERROR_run hint rexpr m E), Hs.
  - intros B T L store lhs rexpr next m c msg st1 E.
    cbn [bind Monad_Stmt]. unfold seq.
    now rewrite (ASSIGN_OR_RETURN_failure hint store lhs rexpr m E).
  - intros steps st r st' n F.
    destruct (MultiStepFunction_run hint steps (enter st) F) as (Hr & Hm & Ht).
    repeat split; trivial.
    intros Hok. exact (first_failure_ok_ran_all steps st F Hok).
Qed.

Lemma C7_witness :
  fst (MultiStepFunction PlainFallback
         [Scenario.counting OkStatus;
          Scenario.counting (Error kPermissionDenied "no");
          Scenario.counting (Error kInternal "later")]
         (enter 0%nat))
    = Returned (Error kPermissionDenied "no")
  /\ mem (snd (MultiStepFunction PlainFallback
                 [Scenario.counting OkStatus;
                  Scenario.counting (Error kPermissionDenied "no");
                  Scenario.counting (Error kInternal "later")]
                 (enter 0%nat)))
     = 2%nat.
Proof.
  destruct (proj2 (proj2 (@C7_failure_is_never_swallowed nat Status _
                            PlainFallback))
              [Scenario.counting OkStatus;
               Scenario.counting (Error kPermissionDenied "no");
               Scenario.counting (Error kInternal "later")]
              0%nat (Error kPermissionDenied "no") 2%nat 2%nat eq_refl)
    as (Hr & Hm & _).
  split; [exact Hr | exact Hm].
Defined.

(** ** The branch-prediction hint *)

(** A value of type [long] passes through [__builtin_expect] unchanged. *)
Lemma to_long_in_range (z : Z) :
  (- 2 ^ (long_bits - 1) <= z < 2 ^ (long_bits - 1))%Z -> to_long z = z.
Proof.
  unfold to_long, long_bits. intros Hz.
  rewrite Z.mod_small; lia.
Qed.

(** On any [long], taken or not, both expansions of each hint macro choose
    the same branch of an [if]. *)
Lemma hint_same_branch (x : Z) :
  (- 2 ^ (long_bits - 1) <= x < 2 ^ (long_bits - 1))%Z ->
  truthy (REVERB_PREDICT_FALSE WithBuiltinExpect x)
    = truthy (REVERB_PREDICT_FALSE PlainFallback x)
  /\ truthy (REVERB_PREDICT_TRUE WithBuiltinExpect x)
     = truthy (REVERB_PREDICT_TRUE PlainFallback x).
Proof.
  intros Hx. cbn [REVERB_PREDICT_FALSE REVERB_PREDICT_TRUE].
  unfold __builtin_expect. rewrite (to_long_in_range Hx). split; trivial.
  unfold lnot, truthy. destruct (x =? 0)%Z; reflexivity.
Qed.

(** The propagation macros do not depend on the expansion of the hint. *)
Lemma RETURN_IF_ERROR_any_hint
    {St R : Type} `{ImplicitlyConvertible Status R} (e1 e2 : Expansion)
    (rexpr : Expr St Status) (m : Machine St) :
  REVERB_RETURN_IF_ERROR e1 rexpr m = REVERB_RETURN_IF_ERROR e2 rexpr m.
Proof.
  destruct (rexpr (mem m)) as [s st'] eqn:E.
  now rewrite !(RETURN_IF_ERROR_run _ rexpr m E).
Qed.

Lemma ASSIGN_OR_RETURN_any_hint
    {St R T L : Type} `{ImplicitlyConvertible Status R} (e1 e2 : Expansion)
    (store : L -> T -> St -> St) (lhs : Expr St L)
    (rexpr : Expr St (StatusOr T)) (m : Machine St) :
  REVERB_ASSIGN_OR_RETURN_IMPL e1 store lhs rexpr m
  = REVERB_ASSIGN_OR_RETURN_IMPL e2 store lhs rexpr m.
Proof.
  destruct (rexpr (mem m)) as [[v|c msg] st1] eqn:E.
  - destruct (lhs st1) as [l st2] eqn:El.
    now rewrite !(ASSIGN_OR_RETURN_success _ store lhs rexpr m E El).
  - now rewrite !(ASSIGN_OR_RETURN_failure _ store lhs rexpr m E).
Qed.

(** X6: whatever two compilers the header is built with, and whichever
    branch of the [#if] at line 31 each one takes, a function written with
    REVERB_RETURN_IF_ERROR runs the same: same outcome, state and trace. *)
Lemma MultiStepFunction_any_compiler {St : Type} (cc1 cc2 : Compiler)
    (steps : list (Expr St Status)) :
  forall m : Machine St,
    MultiStepFunction (expansion_of cc1) steps m
    = MultiStepFunction (expansion_of cc2) steps m.
Proof.
  induction steps as [|step rest IH]; intros m; [reflexivity |].
  cbn [MultiStepFunction bind Monad_Stmt]. unfold seq.
  rewrite (RETURN_IF_ERROR_any_hint (expansion_of cc1) (expansion_of cc2)).
  destruct (REVERB_RETURN_IF_ERROR (expansion_of cc2) step m) as [[[]| |] m'];
    [apply IH | reflexivity | reflexivity].
Qed.

(** C8: the hint has no meaning of its own.  On every boolean condition
    REVERB_PREDICT_FALSE(x) is x and REVERB_PREDICT_TRUE(x) is !!x under
    either expansion, the two expansions of each hint macro agree, and each
    propagation macro runs the same under both. *)
Theorem C8_hint_carries_no_semantics :
  (forall (e : Expansion) (x : bool),
      truthy (REVERB_PREDICT_FALSE e (of_bool x)) = x)
  /\ (forall (e : Expansion) (x : bool),
         REVERB_PREDICT_TRUE e (of_bool x) = lnot (lnot (of_bool x))
         /\ truthy (REVERB_PREDICT_TRUE e (of_bool x)) = x)
  /\ (forall (x : bool),
         REVERB_PREDICT_FALSE WithBuiltinExpect (of_bool x)
         = REVERB_PREDICT_FALSE PlainFallback (of_bool x)
         /\ REVERB_PREDICT_TRUE WithBuiltinExpect (of_bool x)
            = REVERB_PREDICT_TRUE PlainFallback (of_bool x))
  /\ (forall (St R : Type) (conv : ImplicitlyConvertible Status R)
             (rexpr : Expr St Status) (m : Machine St),
         REVERB_RETURN_IF_ERROR (R := R) WithBuiltinExpect rexpr m
         = REVERB_RETURN_IF_ERROR (R := R) PlainFallback rexpr m)
  /\ (forall (St R T L : Type) (conv : ImplicitlyConvertible Status R)
             (store : L -> T -> St -> St) (lhs : Expr St L)
             (rexpr : Expr St (StatusOr T)) (m : Machine St),
         REVERB_ASSIGN_OR_RETURN_IMPL (R := R) WithBuiltinExpect store lhs rexpr m
         = REVERB_ASSIGN_OR_RETURN_IMPL (R := R) PlainFallback store lhs rexpr m).
Proof.
  repeat apply conj.
  - intros e x. now rewrite PREDICT_FALSE_of_bool, truthy_of_bool.
  - intros e x. rewrite PREDICT_TRUE_of_bool, lnot_lnot_of_bool.
    split; [reflexivity | apply truthy_of_bool].
  - intros x. now rewrite !PREDICT_FALSE_of_bool, !PREDICT_TRUE_of_bool.
  - intros St R conv rexpr m. apply RETURN_IF_ERROR_any_hint.
  - intros St R T L conv store lhs rexpr m. apply ASSIGN_OR_RETURN_any_hint.
Qed.

(** ** The fatal assertion *)

(** C10: REVERB_CHECK_OK passes exactly when the value equals
    absl::OkStatus().  On an OK status the program goes on, in the state the
    evaluation of the value left; on any other status the process is
    aborted, and in no case does the macro return from the enclosing
    function. *)
Theorem C10_check_ok_is_fatal_assertion
    {St R : Type} (val : Expr St Status) (m : Machine St)
    (s : Status) (st' : St) :
  val (mem m) = (s, st') ->
  (fst (REVERB_CHECK_OK (R := R) val m) = Next tt <-> s = OkStatus)
  /\ (ok s = true ->
      REVERB_CHECK_OK (R := R) val m
      = (Next tt, mkMachine st' (trace m ++ [EvalRexpr])))
  /\ (ok s = false -> fst (REVERB_CHECK_OK (R := R) val m) = Fatal)
  /\ (forall r : R, fst (REVERB_CHECK_OK (R := R) val m) <> Returned r).
Proof.
  intros E. unfold REVERB_CHECK_OK, CHECK_EQ.
  cbn [bind ret Monad_Stmt]. unfold seq, eval, die. rewrite E.
  rewrite eqb_OkStatus.
  destruct s as [|c msg]; cbn; repeat split; try congruence; discriminate.
Qed.

Lemma C10_witness :
  (fst (REVERB_CHECK_OK (R := Status) (constant OkStatus) (enter tt)) = Next tt)
  /\ fst (REVERB_CHECK_OK (R := Status)
            (constant (Error kInternal "broken")) (enter tt)) = Fatal.
Proof.
  split.
  - exact (proj2 (proj1 (@C10_check_ok_is_fatal_assertion unit Status
                           (constant OkStatus) (enter tt) OkStatus tt eq_refl))
             eq_refl).
  - exact (proj1 (proj2 (proj2 (@C10_check_ok_is_fatal_assertion unit Status
                                  (constant (Error kInternal "broken"))
                                  (enter tt) _ tt eq_refl)))
             eq_refl).
Defined.

(** * Further properties of the header *)

(** ** The hint on conditions that are not boolean *)

Lemma to_long_unsigned_high (x : Z) :
  (2 ^ (long_bits - 1) <= x < 2 ^ long_bits)%Z ->
  to_long x = (x - 2 ^ long_bits)%Z.
Proof.
  unfold to_long, long_bits. intros Hx.
  replace (x + 2 ^ (64 - 1))%Z with ((x - 2 ^ (64 - 1)) + 1 * 2 ^ 64)%Z by lia.
  rewrite Z.mod_add by lia. rewrite Z.mod_small; lia.
Qed.

Lemma to_long_multiple (k : Z) : to_long (k * 2 ^ long_bits) = 0%Z.
Proof.
  unfold to_long, long_bits.
  rewrite Z.add_comm, Z.mod_add by lia. reflexivity.
Qed.

Lemma lnot_lnot_truthy (x : Z) : lnot (lnot x) = of_bool (truthy x).
Proof. unfold lnot, truthy. destruct (x =? 0)%Z; reflexivity. Qed.

(** X1: REVERB_PREDICT_TRUE chooses the same branch under both expansions on
    every integer condition, of any width; the values of the two expansions
    are equal exactly on 0 and 1, since the built-in one yields [!!x]. *)
Theorem X1_predict_true_same_branch (x : Z) :
  truthy (REVERB_PREDICT_TRUE WithBuiltinExpect x)
    = truthy (REVERB_PREDICT_TRUE PlainFallback x)
  /\ REVERB_PREDICT_TRUE WithBuiltinExpect x = of_bool (truthy x)
  /\ (REVERB_PREDICT_TRUE WithBuiltinExpect x
        = REVERB_PREDICT_TRUE PlainFallback x
      <-> x = 0%Z \/ x = 1%Z).
Proof.
  cbn [REVERB_PREDICT_TRUE]. unfold __builtin_expect.
  rewrite lnot_lnot_truthy, to_long_of_bool, truthy_of_bool.
  repeat split; trivial.
  - unfold truthy. destruct (Z.eqb_spec x 0) as [->|Hx]; cbn; intros E; lia.
  - intros [-> | ->]; reflexivity.
Qed.

(** X2: on every condition that fits 64 bits, signed or unsigned,
    REVERB_PREDICT_FALSE chooses the same branch under both expansions. *)
Theorem X2_predict_false_same_branch_64 (x : Z) :
  (- 2 ^ 63 <= x < 2 ^ 64)%Z ->
  truthy (REVERB_PREDICT_FALSE WithBuiltinExpect x)
    = truthy (REVERB_PREDICT_FALSE PlainFallback x).
Proof.
  intros Hx. cbn [REVERB_PREDICT_FALSE]. unfold __builtin_expect.
  destruct (Z_lt_ge_dec x (2 ^ 63)) as [Hlo | Hhi].
  - rewrite to_long_in_range; [reflexivity | unfold long_bits; lia].
  - rewrite to_long_unsigned_high by (unfold long_bits; lia).
    unfold truthy, long_bits.
    destruct (Z.eqb_spec (x - 2 ^ 64) 0), (Z.eqb_spec x 0); trivial; lia.
Qed.

Lemma X2_witness :
  truthy (REVERB_PREDICT_FALSE WithBuiltinExpect (2 ^ 64 - 1))
    = truthy (REVERB_PREDICT_FALSE PlainFallback (2 ^ 64 - 1)).
Proof.
  apply (@X2_predict_false_same_branch_64 (2 ^ 64 - 1)%Z). lia.
Defined.

(** X3: the bound of X2 is needed.  A non-zero condition wider than [long]
    whose low 64 bits are zero tests false through
    [__builtin_expect(x, 0)] and true through the plain expansion, while
    REVERB_PREDICT_TRUE, which applies [!!] first, still tests true. *)
Theorem X3_predict_false_truncates_wide_condition (k : Z) :
  k <> 0%Z ->
  truthy (REVERB_PREDICT_FALSE WithBuiltinExpect (k * 2 ^ 64)) = false
  /\ truthy (REVERB_PREDICT_FALSE PlainFallback (k * 2 ^ 64)) = true
  /\ truthy (REVERB_PREDICT_TRUE WithBuiltinExpect (k * 2 ^ 64)) = true.
Proof.
  intros Hk. cbn [REVERB_PREDICT_FALSE REVERB_PREDICT_TRUE].
  unfold __builtin_expect.
  change (2 ^ 64)%Z with (2 ^ long_bits)%Z. rewrite to_long_multiple.
  assert (Ht : truthy (k * 2 ^ long_bits) = true).
  { unfold truthy, long_bits.
    destruct (Z.eqb_spec (k * 2 ^ 64) 0); [lia | reflexivity]. }
  rewrite lnot_lnot_truthy, Ht. repeat split.
Qed.

Lemma X3_witness :
  truthy (REVERB_PREDICT_FALSE WithBuiltinExpect (1 * 2 ^ 64)) = false
  /\ truthy (REVERB_PREDICT_FALSE PlainFallback (1 * 2 ^ 64)) = true.
Proof.
  destruct (@X3_predict_false_truncates_wide_condition 1%Z) as (A & B & _);
    [lia | split; assumption].
Defined.

(** ** Functions made of REVERB_RETURN_IF_ERROR steps *)

Section Steps.

Context {St : Type}.
Variable hint : Expansion.

(** A run of [MultiStepFunction] that returns OK has run every step. *)
Lemma MultiStepFunction_ok_inv (steps : list (Expr St Status)) (m : Machine St) :
  fst (MultiStepFunction hint steps m) = Returned OkStatus ->
  first_failure steps (mem m)
  = (OkStatus, mem (snd (MultiStepFunction hint steps m)), length steps).
Proof.
  intros Hok.
  destruct (first_failure steps (mem m)) as [[r st'] n] eqn:F.
  destruct (MultiStepFunction_run hint steps m F) as (Hr & Hm & _).
  rewrite Hr in Hok. injection Hok as ->.
  now rewrite Hm, (first_failure_ok_ran_all steps (mem m) F eq_refl).
Qed.

(** X4: when the steps of a function are split in two, the function is the
    first part followed, if the first part ends OK, by the second part from
    where the first part stopped; a failure in the first part is the result
    of the whole, trace included. *)
Theorem X4_multi_step_concatenation (first second : list (Expr St Status)) :
  forall m : Machine St,
    MultiStepFunction hint (first ++ second) m
    = match fst (MultiStepFunction hint first m) with
      | Returned OkStatus =>
          MultiStepFunction hint second (snd (MultiStepFunction hint first m))
      | _ => MultiStepFunction hint first m
      end.
Proof.
  induction first as [|step rest IH]; intros m; [reflexivity |].
  cbn [app MultiStepFunction bind Monad_Stmt]. unfold seq.
  destruct (step (mem m)) as [s st1] eqn:E.
  rewrite (RETURN_IF_ERROR_run hint step m E).
  destruct s as [|c msg]; cbn [ok fst snd].
  - apply IH.
  - reflexivity.
Qed.

(** X5: once a step fails, no later step runs: if the steps before it all
    return OK and it does not, the function returns its status in the state
    it left, after one evaluation per step up to it, whatever steps follow. *)
Theorem X5_steps_after_failure_never_run
    (before after : list (Expr St Status)) (failing : Expr St Status)
    (m : Machine St) :
  fst (MultiStepFunction hint before m) = Returned OkStatus ->
  ok (fst (failing (mem (snd (MultiStepFunction hint before m))))) = false ->
  fst (MultiStepFunction hint (before ++ failing :: after) m)
    = Returned (fst (failing (mem (snd (MultiStepFunction hint before m)))))
  /\ mem (snd (MultiStepFunction hint (before ++ failing :: after) m))
     = snd (failing (mem (snd (MultiStepFunction hint before m))))
  /\ occurrences EvalRexpr
       (trace (snd (MultiStepFunction hint (before ++ failing :: after) m)))
     = (occurrences EvalRexpr (trace m) + S (length before))%nat.
Proof.
  intros Hok Hfail.
  pose proof (MultiStepFunction_ok_inv before m Hok) as F.
  pose proof (first_failure_stops before after failing (mem m) F eq_refl Hfail)
    as Fall.
  exact (MultiStepFunction_run hint (before ++ failing :: after) m Fall).
Qed.

End Steps.

Lemma X5_witness :
  fst (MultiStepFunction WithBuiltinExpect
         ([Scenario.counting OkStatus; Scenario.counting OkStatus]
            ++ Scenario.counting (Error kAborted "stop")
            :: [Scenario.counting (Error kInternal "unseen")])
         (enter 0%nat))
    = Returned (Error kAborted "stop")
  /\ mem (snd (MultiStepFunction WithBuiltinExpect
                 ([Scenario.counting OkStatus; Scenario.counting OkStatus]
                    ++ Scenario.counting (Error kAborted "stop")
                    :: [Scenario.counting (Error kInternal "unseen")])
                 (enter 0%nat)))
     = 3%nat.
Proof.
  destruct (@X5_steps_after_failure_never_run nat WithBuiltinExpect
              [Scenario.counting OkStatus; Scenario.counting OkStatus]
              [Scenario.counting (Error kInternal "unseen")]
              (Scenario.counting (Error kAborted "stop"))
              (enter 0%nat) eq_refl eq_refl) as (Hr & Hm & _).
  split; [exact Hr | exact Hm].
Defined.

(** ** The macros against each other *)

Section Siblings.

Context {St R : Type} `{ImplicitlyConvertible Status R}.
Variable hint : Expansion.

(** X7: REVERB_ASSIGN_OR_RETURN_IMPL leaves the enclosing function exactly
    when REVERB_RETURN_IF_ERROR would on the status of the same expression,
    and with the same return value and the same state; it falls through
    exactly when the other does, and never aborts. *)
Theorem X7_extraction_propagates_like_return_if_error
    {T L : Type} (store : L -> T -> St -> St) (lhs : Expr St L)
    (rexpr : Expr St (StatusOr T)) (m : Machine St) :
  (fst (REVERB_ASSIGN_OR_RETURN_IMPL hint store lhs rexpr m) = Next tt
   <-> fst (REVERB_RETURN_IF_ERROR (R := R) hint (status_of rexpr) m) = Next tt)
  /\ (forall r : R,
         fst (REVERB_ASSIGN_OR_RETURN_IMPL hint store lhs rexpr m) = Returned r
         <-> fst (REVERB_RETURN_IF_ERROR hint (status_of rexpr) m) = Returned r)
  /\ (forall r : R,
         fst (REVERB_ASSIGN_OR_RETURN_IMPL hint store lhs rexpr m) = Returned r ->
         mem (snd (REVERB_ASSIGN_OR_RETURN_IMPL hint store lhs rexpr m))
         = mem (snd (REVERB_RETURN_IF_ERROR (R := R) hint (status_of rexpr) m)))
  /\ fst (REVERB_ASSIGN_OR_RETURN_IMPL hint store lhs rexpr m) <> Fatal.
Proof.
  destruct (rexpr (mem m)) as [[v|c msg] st1] eqn:E.
  - destruct (lhs st1) as [l st2] eqn:El.
    rewrite (ASSIGN_OR_RETURN_success hint store lhs rexpr m E El).
    rewrite (RETURN_IF_ERROR_run hint (status_of rexpr) m (s := OkStatus)
               (st' := st1)) by (unfold status_of; now rewrite E).
    cbn [fst snd ok]. repeat split; congruence.
  - rewrite (ASSIGN_OR_RETURN_failure hint store lhs rexpr m E).
    rewrite (RETURN_IF_ERROR_run hint (status_of rexpr) m (s := Error c msg)
               (st' := st1)) by (unfold status_of; now rewrite E).
    cbn [fst snd ok mem]. repeat split; congruence.
Qed.

(** X8: REVERB_CHECK_OK lets the program go on exactly when
    REVERB_RETURN_IF_ERROR would fall through on the same expression, and in
    the same state; where the one returns a status the other aborts. *)
Theorem X8_check_ok_against_return_if_error
    (val : Expr St Status) (m : Machine St) :
  (fst (REVERB_CHECK_OK (R := R) val m) = Next tt
   <-> fst (REVERB_RETURN_IF_ERROR (R := R) hint val m) = Next tt)
  /\ (fst (REVERB_CHECK_OK (R := R) val m) = Fatal
      <-> exists r : R,
            fst (REVERB_RETURN_IF_ERROR (R := R) hint val m) = Returned r)
  /\ mem (snd (REVERB_CHECK_OK (R := R) val m))
     = mem (snd (REVERB_RETURN_IF_ERROR (R := R) hint val m)).
Proof.
  destruct (val (mem m)) as [s st'] eqn:E.
  rewrite (RETURN_IF_ERROR_run hint val m E).
  unfold REVERB_CHECK_OK, CHECK_EQ. cbn [bind ret Monad_Stmt].
  unfold seq, eval, die. rewrite E, eqb_OkStatus.
  destruct s as [|c msg]; cbn [ok fst snd mem]; repeat split;
    try congruence.
  - intros [r Hr]. discriminate Hr.
  - intros _. now exists (implicit (Error c msg)).
Qed.

End Siblings.

(** X10: a failure that crosses two function boundaries arrives unchanged:
    when REVERB_RETURN_IF_ERROR returns a failure from a function of type
    [absl::StatusOr<T>], REVERB_ASSIGN_OR_RETURN_IMPL on that result in the
    caller returns the very status the inner expression produced, and writes
    nothing. *)
Theorem X10_failure_crosses_two_functions_unchanged
    {St St' T L : Type} (hint : Expansion)
    (inner : Expr St Status) (m : Machine St) (result : StatusOr T)
    (store : L -> T -> St' -> St') (lhs : Expr St' L) (caller : Machine St') :
  ok (fst (inner (mem m))) = false ->
  fst (REVERB_RETURN_IF_ERROR (R := StatusOr T) hint inner m) = Returned result ->
  REVERB_ASSIGN_OR_RETURN_IMPL (R := Status) hint store lhs (constant result) caller
  = (Returned (fst (inner (mem m))),
     mkMachine (mem caller) (trace caller ++ [EvalRexpr; CallOk; CallStatus])).
Proof.
  destruct (inner (mem m)) as [s st1] eqn:E. cbn [fst].
  intros Hs. rewrite (RETURN_IF_ERROR_run hint inner m E), Hs. cbn [fst].
  destruct s as [|c msg]; [discriminate Hs |].
  intros Hres. injection Hres as <-.
  now rewrite (ASSIGN_OR_RETURN_failure hint store lhs
                 (constant (implicit (Error c msg))) caller
                 (c := c) (msg := msg) (st1 := mem caller) eq_refl).
Qed.

Lemma X10_witness :
  REVERB_ASSIGN_OR_RETURN_IMPL (R := Status) PlainFallback
    Scenario.set_local (Scenario.declare "v")
    (constant (HoldsError (T := Z) kNotFound "x"))
    (enter Scenario.no_locals)
  = (Returned (Error kNotFound "x"),
     mkMachine Scenario.no_locals [EvalRexpr; CallOk; CallStatus]).
Proof.
  exact (@X10_failure_crosses_two_functions_unchanged
           unit Scenario.Locals Z string PlainFallback
           (constant (Error kNotFound "x")) (enter tt)
           (HoldsError kNotFound "x")
           Scenario.set_local (Scenario.declare "v")
           (enter Scenario.no_locals) eq_refl eq_refl).
Defined.

(** ** Functions made of several extractions *)

Section Extractions.

Context {St T L : Type}.
Variable hint : Expansion.
Variable store : L -> T -> St -> St.

(** [ExtractAll] returns what [extracted] tells. *)
Lemma ExtractAll_run (bindings : list (Expr St L * Expr St (StatusOr T))) :
  forall (m : Machine St) r st',
    extracted store bindings (mem m) = (r, st') ->
    fst (ExtractAll hint store bindings m) = Returned r
    /\ mem (snd (ExtractAll hint store bindings m)) = st'.
Proof.
  induction bindings as [|[lhs rexpr] rest IH]; intros m r st' F.
  - injection F as <- <-. cbn. auto.
  - cbn [ExtractAll bind Monad_Stmt]. unfold seq. cbn [extracted] in F.
    destruct (rexpr (mem m)) as [[v|c msg] st1] eqn:E.
    + destruct (lhs st1) as [l st2] eqn:El.
      rewrite (ASSIGN_OR_RETURN_success hint store lhs rexpr m E El).
      apply IH. exact F.
    + rewrite (ASSIGN_OR_RETURN_failure hint store lhs rexpr m E).
      injection F as <- <-. cbn. auto.
Qed.

(** X9: when the extractions before one all succeed and that one fails,
    the function returns its failure in the state its expression left: the
    destinations before it hold their payloads (one assignment and one move
    each), its own destination and everything after it are neither evaluated
    nor assigned, whatever they are. *)
Theorem X9_failed_extraction_stops_the_function
    (before : list (Expr St L * Expr St (StatusOr T))) :
  forall (after : list (Expr St L * Expr St (StatusOr T)))
         (lhs : Expr St L) (failing : Expr St (StatusOr T))
         (m : Machine St) st' c msg st1,
    extracted store before (mem m) = (OkStatus, st') ->
    failing st' = (HoldsError c msg, st1) ->
    fst (ExtractAll hint store (before ++ (lhs, failing) :: after) m)
      = Returned (Error c msg)
    /\ mem (snd (ExtractAll hint store (before ++ (lhs, failing) :: after) m))
       = st1
    /\ occurrences Assign
         (trace (snd (ExtractAll hint store
                        (before ++ (lhs, failing) :: after) m)))
       = (occurrences Assign (trace m) + length before)%nat
    /\ occurrences EvalLhs
         (trace (snd (ExtractAll hint store
                        (before ++ (lhs, failing) :: after) m)))
       = (occurrences EvalLhs (trace m) + length before)%nat
    /\ occurrences CallValueOrDie
         (trace (snd (ExtractAll hint store
                        (before ++ (lhs, failing) :: after) m)))
       = (occurrences CallValueOrDie (trace m) + length before)%nat.
Proof.
  induction before as [|[lhs0 rexpr0] rest IH];
    intros after lhs failing m st' c msg st1 F Hfail.
  - injection F as <-.
    cbn [app ExtractAll bind Monad_Stmt]. unfold seq.
    rewrite (ASSIGN_OR_RETURN_failure hint store lhs failing m Hfail).
    cbn [fst snd mem trace length]. rewrite !occurrences_app. cbn.
    repeat split; lia.
  - cbn [app ExtractAll bind Monad_Stmt]. unfold seq. cbn [extracted] in F.
    destruct (rexpr0 (mem m)) as [[v|c0 msg0] st0] eqn:E; [| discriminate F].
    destruct (lhs0 st0) as [l st2] eqn:El.
    rewrite (ASSIGN_OR_RETURN_success hint store lhs0 rexpr0 m E El).
    destruct (IH after lhs failing
                (mkMachine (store l v st2)
                   (trace m ++ [EvalRexpr; CallOk; CallValueOrDie; EvalLhs; Assign]))
                st' c msg st1 F Hfail) as (Hr & Hm & Ha & Hl & Hv).
    rewrite Hr, Hm, Ha, Hl, Hv. cbn [trace length].
    rewrite !occurrences_app. cbn. repeat split; lia.
Qed.

End Extractions.

Lemma X9_witness :
  fst (ExtractAll PlainFallback Scenario.set_local
         ([(Scenario.declare "a", constant (HoldsValue 1%Z))]
            ++ (Scenario.declare "b",
                constant (HoldsError kOutOfRange "no b"))
            :: [(Scenario.declare "c", constant (HoldsValue 3%Z))])
         (enter Scenario.no_locals))
    = Returned (Error kOutOfRange "no b")
  /\ mem (snd (ExtractAll PlainFallback Scenario.set_local
                 ([(Scenario.declare "a", constant (HoldsValue 1%Z))]
                    ++ (Scenario.declare "b",
                        constant (HoldsError kOutOfRange "no b"))
                    :: [(Scenario.declare "c", constant (HoldsValue 3%Z))])
                 (enter Scenario.no_locals)))
     = Scenario.set_local "a" 1 Scenario.no_locals.
Proof.
  destruct (@X9_failed_extraction_stops_the_function
              Scenario.Locals Z string PlainFallback Scenario.set_local
              [(Scenario.declare "a", constant (HoldsValue 1%Z))]
              [(Scenario.declare "c", constant (HoldsValue 3%Z))]
              (Scenario.declare "b")
              (constant (HoldsError kOutOfRange "no b"))
              (enter Scenario.no_locals)
              (Scenario.set_local "a" 1 Scenario.no_locals)
              kOutOfRange "no b"
              (Scenario.set_local "a" 1 Scenario.no_locals)
              eq_refl eq_refl) as (Hr & Hm & _).
  split; [exact Hr | exact Hm].
Defined.
